(** * MySQL result-set row decoding (sqlx-core, mysql/protocol/row.rs)

    A shallow embedding of [get_lenenc], [Row::decode], [Row::len] and
    [Row::get].  Bytes are [Byte.byte]; every [usize] is a [Z] that stays in
    [0, 2^64) (a 64-bit target).  Rust's [+] on [usize] either panics on
    overflow (overflow checks on, the default debug profile) or wraps around
    (release profile); the build is a parameter of the whole development. *)

From Stdlib Require Import ZArith List Bool Lia.
From Stdlib Require Import Strings.Byte.
Import ListNotations.
Open Scope Z_scope.

(** ** Outcomes of Rust code: a value, an [Err] result, or a panic *)

Inductive Error :=
(** [protocol_err!("expected ROW (0x00), got: {:#04X}", header)] *)
| ProtocolViolation (got : Z).

Inductive outcome (A : Type) :=
| Ok (a : A)
| Err (e : Error)
| Panic.
Arguments Ok {A} a.
Arguments Err {A} e.
Arguments Panic {A}.

Definition bind {A B} (m : outcome A) (k : A -> outcome B) : outcome B :=
  match m with
  | Ok a => k a
  | Err e => Err e
  | Panic => Panic
  end.

Notation "'let*' x ':=' m 'in' k" := (bind m (fun x => k))
  (at level 200, x name, m at level 100, k at level 200).

(** Build profile: whether arithmetic overflow checks are compiled in. *)
Inductive build := Debug | Release.

Definition USIZE_MOD : Z := 2 ^ 64.

(** The value of a byte as an integer. *)
Definition b2z (b : byte) : Z := Z.of_N (Byte.to_N b).

(** ** Column wire types *)

(** Modelled from the spec: [TypeId], declared in mysql/protocol/type.rs,
    which is not part of the sources.  The spec treats it as an enumeration
    of wire types; the constructors are the constants [Row::decode] matches
    on, and [OTHER id] stands for every wire type with another id. *)
Inductive TypeId :=
| TINY_INT | SMALL_INT | INT | BIG_INT
| DATE | TIME | TIMESTAMP | DATETIME
| TINY_BLOB | MEDIUM_BLOB | LONG_BLOB | CHAR | TEXT | VAR_CHAR
| OTHER (id : Z).

(** ** The decoded row *)

Record Range := mkRange { start : Z; end_ : Z }.

Record Row := mkRow {
  buffer : list byte;
  values : list (option Range);
  binary : bool
}.

Section Decode.

Variable mode : build.

(** [a + b] on [usize]. *)
Definition usize_add (a b : Z) : outcome Z :=
  if a + b <? USIZE_MOD then Ok (a + b)
  else match mode with
       | Debug => Panic
       | Release => Ok ((a + b) mod USIZE_MOD)
       end.

(** ** Slice primitives (Rust core) *)

(** [buf[i]]: panics out of bounds. *)
Definition index_byte (buf : list byte) (i : Z) : outcome Z :=
  match nth_error buf (Z.to_nat i) with
  | Some b => Ok (b2z b)
  | None => Panic
  end.

(** [&buf[i..]]: panics when [i > buf.len()]. *)
Definition slice_from {A} (buf : list A) (i : Z) : outcome (list A) :=
  if Z.of_nat (length buf) <? i then Panic else Ok (skipn (Z.to_nat i) buf).

(** [&buf[a..b]]: panics when [a > b] or [b > buf.len()]. *)
Definition slice_range {A} (buf : list A) (a b : Z) : outcome (list A) :=
  if (b <? a) || (Z.of_nat (length buf) <? b) then Panic
  else Ok (firstn (Z.to_nat (b - a)) (skipn (Z.to_nat a) buf)).

(** [values[index]] on a boxed slice: panics out of bounds. *)
Definition index_slice {A} (xs : list A) (i : Z) : outcome A :=
  match nth_error xs (Z.to_nat i) with
  | Some x => Ok x
  | None => Panic
  end.

(** ** byteorder's [LittleEndian::read_u16 / read_u24 / read_u64] *)

Fixpoint le_value (bs : list byte) : Z :=
  match bs with
  | [] => 0
  | b :: bs' => b2z b + 256 * le_value bs'
  end.

(** Reads [n] bytes little-endian; byteorder panics on a shorter slice. *)
Definition read_uint_le (n : nat) (buf : list byte) : outcome Z :=
  if (length buf <? n)%nat then Panic else Ok (le_value (firstn n buf)).

Definition read_u16 := read_uint_le 2.
Definition read_u24 := read_uint_le 3.
Definition read_u64 := read_uint_le 8.

(** ** The cursor primitives of [crate::io::Buf] for [&[u8]] *)

(** Modelled from the spec: [Buf::get_u8] of crate::io (not part of the
    sources).  It reads one byte and advances the cursor past it; on an
    empty cursor the reference behaviour panics (spec, design notes:
    "the reference behavior panics on buffer underrun"). *)
Definition get_u8 (buf : list byte) : outcome (Z * list byte) :=
  match buf with
  | b :: rest => Ok (b2z b, rest)
  | [] => Panic
  end.

(** Modelled from the spec: [Buf::advance] of crate::io (not part of the
    sources).  It moves the cursor [cnt] bytes forward; past the end it is
    a buffer underrun, on which the reference behaviour panics. *)
Definition advance (buf : list byte) (cnt : Z) : outcome (list byte) :=
  slice_from buf cnt.

(** ** [get_lenenc] (row.rs, lines 27-54) *)

Definition get_lenenc (buf : list byte) : outcome Z :=
  let* b0 := index_byte buf 0 in
  if b0 =? 0xFB then Ok 1
  else if b0 =? 0xFC then
    let len_size := 1 + 2 in
    let* s := slice_from buf 1 in
    let* len := read_u16 s in
    usize_add len_size len
  else if b0 =? 0xFD then
    let len_size := 1 + 3 in
    let* s := slice_from buf 1 in
    let* len := read_u24 s in
    usize_add len_size len
  else if b0 =? 0xFE then
    let len_size := 1 + 8 in
    let* s := slice_from buf 1 in
    let* len := read_u64 s in
    usize_add len_size len
  else usize_add 1 b0.

(** ** The Field Size Resolver: the [match columns[column_idx]] of
    [Row::decode] (row.rs, lines 104-125), at offset [index] of [buffer]. *)
Definition field_size (t : TypeId) (buffer : list byte) (index : Z) : outcome Z :=
  match t with
  | TINY_INT => Ok 1
  | SMALL_INT => Ok 2
  | INT => Ok 4
  | BIG_INT => Ok 8
  | DATE => Ok 5
  | TIME =>
      let* n := index_byte buffer index in usize_add 1 n
  | TIMESTAMP | DATETIME =>
      let* n := index_byte buffer index in usize_add 1 n
  | TINY_BLOB | MEDIUM_BLOB | LONG_BLOB | CHAR | TEXT | VAR_CHAR =>
      let* s := slice_from buffer index in get_lenenc s
  | OTHER _ =>
      (* unimplemented!("encountered unknown field type id: {:?}", id) *)
      Panic
  end.

(** ** [Row::decode], text protocol (row.rs, lines 58-77)

    [buf] is the cursor that [buf.advance(size)] moves, [index] the running
    offset, [values] the vector pushed to.  Each iteration reads the length
    prefix at [&buf[index..]] of the advanced cursor, as the source does. *)
Fixpoint decode_text_loop (columns : list TypeId) (buf : list byte) (index : Z)
    (values : list (option Range)) : outcome (list (option Range)) :=
  match columns with
  | [] => Ok values
  | _ :: columns' =>
      let* s := slice_from buf index in
      let* size := get_lenenc s in
      let* end_ix := usize_add index size in
      let values := values ++ [Some (mkRange index end_ix)] in
      let* index := usize_add index size in
      let* buf := advance buf size in
      decode_text_loop columns' buf index values
  end.

(** ** [Row::decode], binary protocol, the per-column loop (row.rs, lines
    94-130).  [null_bitmap] is the whole cursor after the header, as in the
    source ([&buf[..]] is taken before the advance). *)
Fixpoint decode_binary_loop (null_bitmap buffer : list byte)
    (columns : list TypeId) (column_idx index : Z)
    (values : list (option Range)) : outcome (list (option Range)) :=
  match columns with
  | [] => Ok values
  | t :: columns' =>
      let column_null_idx := column_idx + 2 in
      let* nb := index_byte null_bitmap (column_null_idx / 8) in
      let is_null := negb (Z.land nb (Z.shiftl 1 (column_null_idx mod 8)) =? 0) in
      if is_null then
        decode_binary_loop null_bitmap buffer columns' (column_idx + 1) index
          (values ++ [None])
      else
        let* size := field_size t buffer index in
        let* end_ix := usize_add index size in
        let values := values ++ [Some (mkRange index end_ix)] in
        let* index := usize_add index size in
        decode_binary_loop null_bitmap buffer columns' (column_idx + 1) index values
  end.

(** ** [Row::decode] (row.rs, lines 57-137) *)
Definition decode (buf : list byte) (columns : list TypeId) (binary : bool)
    : outcome Row :=
  if negb binary then
    let buffer := buf in
    let* values := decode_text_loop columns buf 0 [] in
    Ok (mkRow buffer values binary)
  else
    (* 0x00 header : byte<1> *)
    let* hb := get_u8 buf in
    let (header, buf) := hb in
    if negb (header =? 0) then Err (ProtocolViolation header)
    else
      (* NULL-Bitmap : byte<(number_of_columns + 9) / 8> *)
      let null_len := (Z.of_nat (length columns) + 9) / 8 in
      let null_bitmap := buf in
      let* buf := advance buf null_len in
      let buffer := buf in
      let* values := decode_binary_loop null_bitmap buffer columns 0 0 [] in
      Ok (mkRow buffer values binary).

End Decode.

(** ** [Row::len] and [Row::get] (row.rs, lines 16-24) *)

Definition len (r : Row) : Z := Z.of_nat (length (values r)).

Definition get (r : Row) (index : Z) : outcome (option (list byte)) :=
  let* v := index_slice (values r) index in
  match v with
  | None => Ok None
  | Some range => let* s := slice_range (buffer r) (start range) (end_ range) in
                  Ok (Some s)
  end.

(** ** The fixture of the source's [null_bitmap_test] (row.rs, lines
    147-302): the 26-column binary row and the wire types read from its
    column definitions (3 = INT, 253 = VAR_CHAR, 252 = TEXT, 1 = TINY_INT,
    7 = TIMESTAMP, 8 = BIG_INT). *)
Definition test_row : list byte :=
  [x00; x40; x5a; xe5; x00; x04; x00; x00; x00; x04; x72; x75; x73; x74; x00; x00;
   x07; xe4; x07; x01; x10; x08; x0a; x11; x00; x00; x04; xd0; x07; x01; x01; x00;
   x00; x00; x00; x0a; x00; x00; x00; x00; x00; x00; x00; x00; x00; x00; x00; x00;
   x00; x00; x00; x00; x00; x00; x00; x00; x00; x00; x00; x00; x00; x00; x00; x00].

Definition test_types : list TypeId :=
  [INT; VAR_CHAR; VAR_CHAR; TINY_INT; TIMESTAMP; TIMESTAMP; TINY_INT; TEXT;
   TINY_INT; TEXT; TEXT; TIMESTAMP; TINY_INT; INT; INT; TINY_INT; VAR_CHAR;
   INT; INT; TIMESTAMP; TIMESTAMP; INT; INT; INT; BIG_INT; INT].

(** ** Spec-side definitions, following the words of the spec *)

(** Spec 4.1: the total span (prefix plus payload) of a length-encoded
    field, keyed by its first byte.  [None] when the declared-width length
    bytes are missing, or for a first byte outside the spec's table. *)
Definition lenenc_span_spec (buf : list byte) : option Z :=
  match buf with
  | [] => None
  | b :: rest =>
      let v := b2z b in
      if v <? 0xFB then Some (1 + v)
      else if v =? 0xFB then Some 1
      else if v =? 0xFC then
        match rest with
        | b0 :: b1 :: _ => Some (3 + (b2z b0 + 2^8 * b2z b1))
        | _ => None
        end
      else if v =? 0xFD then
        match rest with
        | b0 :: b1 :: b2 :: _ => Some (4 + (b2z b0 + 2^8 * b2z b1 + 2^16 * b2z b2))
        | _ => None
        end
      else if v =? 0xFE then
        match rest with
        | b0 :: b1 :: b2 :: b3 :: b4 :: b5 :: b6 :: b7 :: _ =>
            Some (9 + (b2z b0 + 2^8 * b2z b1 + 2^16 * b2z b2 + 2^24 * b2z b3
                       + 2^32 * b2z b4 + 2^40 * b2z b5 + 2^48 * b2z b6
                       + 2^56 * b2z b7))
        | _ => None
        end
      else None
  end.

(** Spec 4.4, text mode: the whole payload is the row buffer; for each
    column, starting at offset 0, the size is computed by the 4.1 decoder
    at the current offset, the range [offset, offset+size) is recorded and
    the offset advances by size. *)
Fixpoint decode_text_spec (mode : build) (payload : list byte)
    (columns : list TypeId) (offset : Z) : outcome (list (option Range)) :=
  match columns with
  | [] => Ok []
  | _ :: columns' =>
      let* s := slice_from payload offset in
      let* size := get_lenenc mode s in
      let* next := usize_add mode offset size in
      let* rest := decode_text_spec mode payload columns' next in
      Ok (Some (mkRange offset next) :: rest)
  end.

(** Wire types with a size rule in the Field Size Resolver. *)
Definition supported (t : TypeId) : bool :=
  match t with
  | OTHER _ => false
  | _ => true
  end.

(** The length-encoded field 0xFE with the largest 8-byte length. *)
Definition fe_max : list byte := [xfe; xff; xff; xff; xff; xff; xff; xff; xff].

(** The row decoded from the source's [null_bitmap_test] fixture. *)
Definition test_decoded : Row :=
  match decode Debug test_row test_types true with
  | Ok r => r
  | _ => mkRow [] [] true
  end.

(** Every present range of the values so far satisfies [0 <= start <= end]. *)
Definition ranges_ok (vs : list (option Range)) : Prop :=
  forall rg, In (Some rg) vs -> 0 <= start rg <= end_ rg.

(** Walks the values in order from offset [s]: every present range must
    start where the previous present one ended (absent values are skipped);
    returns the end of the last one, or [None] when the chain breaks. *)
Fixpoint chain_from (s : Z) (vs : list (option Range)) : option Z :=
  match vs with
  | [] => Some s
  | None :: vs' => chain_from s vs'
  | Some rg :: vs' => if start rg =? s then chain_from (end_ rg) vs' else None
  end.

(** Bit [c] of a null bitmap, located as [Row::decode] locates it: byte
    [c / 8], bit [c % 8]; [None] when the byte is missing. *)
Definition null_bit (bm : list byte) (c : Z) : option bool :=
  match nth_error bm (Z.to_nat (c / 8)) with
  | Some b => Some (Z.testbit (b2z b) (c mod 8))
  | None => None
  end.

(** ** Basic facts *)

Create HintDb noerr.

(** Destructs the computations bound in a hypothesis; branches where a
    step that cannot return [Err] did so are closed with [noerr]. *)
Ltac inv_bind :=
  repeat match goal with
  | H : bind ?m _ = _ |- _ =>
      let E := fresh "E" in
      destruct m eqn:E; cbn [bind] in H;
      try discriminate H;
      try (exfalso; solve [eauto with noerr])
  end.

Lemma b2z_bounds : forall b, 0 <= b2z b < 256.
Proof.
  intros b. unfold b2z. pose proof (Byte.to_N_bounded b). lia.
Qed.

Lemma b2z_zero : forall b, b2z b = 0 -> b = x00.
Proof.
  intros b H. unfold b2z in H. pose proof (Byte.of_to_N b) as E.
  assert (Byte.to_N b = 0%N) as H0 by lia. rewrite H0 in E.
  vm_compute in E. congruence.
Qed.

Lemma le_value_nonneg : forall bs, 0 <= le_value bs.
Proof.
  induction bs as [|b bs IH]; cbn [le_value]; [lia|]. pose proof (b2z_bounds b). lia.
Qed.

Lemma usize_add_range : forall m a b c,
  0 <= a -> 0 <= b -> usize_add m a b = Ok c -> 0 <= c < USIZE_MOD.
Proof.
  intros m a b c Ha Hb H. unfold usize_add in H.
  destruct (Z.ltb_spec (a + b) USIZE_MOD).
  - injection H as <-. lia.
  - destruct m; try discriminate. injection H as <-.
    apply Z.mod_pos_bound. unfold USIZE_MOD. lia.
Qed.

Lemma usize_add_debug : forall a b c,
  usize_add Debug a b = Ok c -> c = a + b /\ a + b < USIZE_MOD.
Proof.
  intros a b c H. unfold usize_add in H.
  destruct (Z.ltb_spec (a + b) USIZE_MOD); [injection H as <-; lia | discriminate].
Qed.

Lemma usize_add_small : forall m a b,
  a + b < USIZE_MOD -> usize_add m a b = Ok (a + b).
Proof.
  intros m a b H. unfold usize_add. rewrite (proj2 (Z.ltb_lt _ _) H). reflexivity.
Qed.

Lemma usize_add_not_err : forall m a b e, usize_add m a b = Err e -> False.
Proof. intros m a b e. unfold usize_add. destruct (_ <? _), m; discriminate. Qed.

Lemma index_byte_not_err : forall buf i e, index_byte buf i = Err e -> False.
Proof. intros buf i e. unfold index_byte. destruct (nth_error _ _); discriminate. Qed.

Lemma slice_from_not_err : forall A (buf : list A) i e, slice_from buf i = Err e -> False.
Proof. intros A buf i e. unfold slice_from. destruct (_ <? _); discriminate. Qed.

Lemma read_uint_le_not_err : forall n buf e, read_uint_le n buf = Err e -> False.
Proof. intros n buf e. unfold read_uint_le. destruct (_ <? _)%nat; discriminate. Qed.

Lemma get_u8_not_err : forall buf e, get_u8 buf = Err e -> False.
Proof. intros [|b buf] e; discriminate. Qed.

Lemma advance_not_err : forall buf n e, advance buf n = Err e -> False.
Proof. intros buf n e. apply slice_from_not_err. Qed.

#[local] Hint Resolve usize_add_not_err index_byte_not_err slice_from_not_err
  read_uint_le_not_err get_u8_not_err advance_not_err : noerr.

Lemma index_byte_range : forall buf i v, index_byte buf i = Ok v -> 0 <= v < 256.
Proof.
  intros buf i v H. unfold index_byte in H.
  destruct (nth_error buf _) as [b|]; [injection H as <-; apply b2z_bounds | discriminate].
Qed.

Lemma get_lenenc_not_err : forall m buf e, get_lenenc m buf = Err e -> False.
Proof.
  intros m buf e H. unfold get_lenenc in H. inv_bind.
  repeat (destruct (_ =? _)); inv_bind; try discriminate;
    unfold read_u16, read_u24, read_u64 in *; eauto with noerr.
Qed.
#[local] Hint Resolve get_lenenc_not_err : noerr.

Lemma get_lenenc_range : forall m buf k,
  get_lenenc m buf = Ok k -> 0 <= k < USIZE_MOD.
Proof.
  intros m buf k H. unfold get_lenenc in H. inv_bind.
  pose proof (index_byte_range _ _ _ E).
  repeat (destruct (_ =? _)); inv_bind;
    try (injection H as <-; unfold USIZE_MOD; lia);
    try (unfold read_u16, read_u24, read_u64, read_uint_le in E1;
         destruct (_ <? _)%nat; [discriminate|injection E1 as <-]);
    (eapply usize_add_range; [ | | exact H ]);
    try apply le_value_nonneg; lia.
Qed.

Lemma field_size_not_err : forall m t buffer index e,
  field_size m t buffer index = Err e -> False.
Proof.
  intros m t buffer index e H.
  destruct t; cbn [field_size] in H; try discriminate; inv_bind; eauto with noerr.
Qed.
#[local] Hint Resolve field_size_not_err : noerr.

Lemma field_size_range : forall m t buffer index k,
  field_size m t buffer index = Ok k -> 0 <= k < USIZE_MOD.
Proof.
  intros m t buffer index k H. unfold USIZE_MOD.
  destruct t; cbn [field_size] in H; try discriminate H; inv_bind;
    try (injection H as <-; lia);
    try (pose proof (index_byte_range _ _ _ E);
         eapply usize_add_range; [ | | exact H]; lia);
    eapply get_lenenc_range; exact H.
Qed.

(** ** Loop invariants of [Row::decode] *)

Lemma decode_text_loop_not_err : forall m columns buf index values e,
  decode_text_loop m columns buf index values = Err e -> False.
Proof.
  induction columns as [|t columns IH]; intros buf index values e H;
    cbn [decode_text_loop] in H; [discriminate|].
  inv_bind; eauto.
Qed.

Lemma decode_binary_loop_not_err : forall m bm buffer columns cidx index values e,
  decode_binary_loop m bm buffer columns cidx index values = Err e -> False.
Proof.
  induction columns as [|t columns IH]; intros cidx index values e H;
    cbn [decode_binary_loop] in H; [discriminate|].
  inv_bind. destruct (negb _); inv_bind; eauto.
Qed.
#[local] Hint Resolve decode_text_loop_not_err decode_binary_loop_not_err : noerr.

Lemma decode_text_loop_length : forall m columns buf index values vs,
  decode_text_loop m columns buf index values = Ok vs ->
  length vs = (length values + length columns)%nat.
Proof.
  induction columns as [|t columns IH]; intros buf index values vs H;
    cbn [decode_text_loop] in H.
  - injection H as <-. simpl. lia.
  - inv_bind. apply IH in H. rewrite length_app in H. simpl in *. lia.
Qed.

Lemma decode_binary_loop_length : forall m bm buffer columns cidx index values vs,
  decode_binary_loop m bm buffer columns cidx index values = Ok vs ->
  length vs = (length values + length columns)%nat.
Proof.
  induction columns as [|t columns IH]; intros cidx index values vs H;
    cbn [decode_binary_loop] in H.
  - injection H as <-. simpl. lia.
  - inv_bind. destruct (negb _); inv_bind; apply IH in H;
      rewrite length_app in H; simpl in *; lia.
Qed.

Lemma decode_binary_loop_prefix : forall m bm buffer columns cidx index values vs,
  decode_binary_loop m bm buffer columns cidx index values = Ok vs ->
  exists tl, vs = values ++ tl.
Proof.
  induction columns as [|t columns IH]; intros cidx index values vs H;
    cbn [decode_binary_loop] in H.
  - injection H as <-. exists []. rewrite app_nil_r. reflexivity.
  - inv_bind. destruct (negb _); inv_bind; apply IH in H; destruct H as [tl ->];
      eexists; rewrite <- app_assoc; reflexivity.
Qed.

Lemma ranges_ok_snoc : forall vs v,
  ranges_ok vs -> (forall rg, v = Some rg -> 0 <= start rg <= end_ rg) ->
  ranges_ok (vs ++ [v]).
Proof.
  intros vs v Hvs Hv rg Hin. apply in_app_or in Hin as [Hin|[Hin|[]]]; auto.
Qed.

Lemma decode_text_loop_ranges : forall columns buf index values vs,
  0 <= index -> ranges_ok values ->
  decode_text_loop Debug columns buf index values = Ok vs -> ranges_ok vs.
Proof.
  induction columns as [|t columns IH]; intros buf index values vs Hi Hok H;
    cbn [decode_text_loop] in H.
  - injection H as <-. exact Hok.
  - inv_bind. pose proof (get_lenenc_range _ _ _ E0).
    apply usize_add_debug in E1.
    eapply IH; [ | | exact H]; [lia|].
    apply ranges_ok_snoc; [exact Hok|]. intros rg [= <-]. simpl. lia.
Qed.

Lemma decode_binary_loop_ranges : forall bm buffer columns cidx index values vs,
  0 <= index -> ranges_ok values ->
  decode_binary_loop Debug bm buffer columns cidx index values = Ok vs -> ranges_ok vs.
Proof.
  induction columns as [|t columns IH]; intros cidx index values vs Hi Hok H;
    cbn [decode_binary_loop] in H.
  - injection H as <-. exact Hok.
  - inv_bind. destruct (negb _); inv_bind.
    + eapply IH; [ | | exact H]; [lia|].
      apply ranges_ok_snoc; [exact Hok|]. discriminate.
    + pose proof (field_size_range _ _ _ _ _ E0).
      apply usize_add_debug in E1.
      eapply IH; [ | | exact H]; [lia|].
      apply ranges_ok_snoc; [exact Hok|]. intros rg [= <-]. simpl. lia.
Qed.

Lemma index_byte_ok : forall buf i v,
  index_byte buf i = Ok v -> exists b, nth_error buf (Z.to_nat i) = Some b /\ v = b2z b.
Proof.
  intros buf i v H. unfold index_byte in H.
  destruct (nth_error buf _) as [b|]; [injection H as <-; eauto | discriminate].
Qed.

(** The null test of the source, [byte & (1 << k) != 0], is bit [k]. *)
Lemma mask_testbit : forall x k, 0 <= k ->
  negb (Z.land x (Z.shiftl 1 k) =? 0) = Z.testbit x k.
Proof.
  intros x k Hk. rewrite Z.shiftl_1_l.
  destruct (Z.eqb_spec (Z.land x (2 ^ k)) 0) as [H|H]; simpl.
  - symmetry. rewrite <- (Bool.andb_true_r (Z.testbit x k)).
    rewrite <- (Z.pow2_bits_true k Hk), <- Z.land_spec, H. apply Z.testbit_0_l.
  - symmetry. destruct (Z.testbit x k) eqn:T; [reflexivity|]. exfalso. apply H.
    apply Z.bits_inj'. intros n Hn. rewrite Z.land_spec, Z.testbit_0_l, Z.pow2_bits_eqb by lia.
    destruct (Z.eqb_spec k n) as [<-|]; [rewrite T|]; apply Bool.andb_false_r || apply Bool.andb_false_l; reflexivity.
Qed.

Lemma decode_binary_loop_nulls : forall m bm buffer columns cidx index values vs,
  0 <= cidx ->
  decode_binary_loop m bm buffer columns cidx index values = Ok vs ->
  forall i, (i < length columns)%nat ->
  exists nb, nth_error bm (Z.to_nat ((cidx + Z.of_nat i + 2) / 8)) = Some nb /\
    (nth_error vs (length values + i) = Some None <->
     Z.testbit (b2z nb) ((cidx + Z.of_nat i + 2) mod 8) = true).
Proof.
  induction columns as [|t columns IH]; intros cidx index values vs Hc H i Hi;
    [simpl in Hi; lia|].
  cbn [decode_binary_loop] in H. inv_bind.
  apply index_byte_ok in E as [b [Hb ->]].
  destruct i as [|i].
  - exists b. rewrite Z.add_0_r, Nat.add_0_r. split; [exact Hb|].
    rewrite <- mask_testbit by (apply Z.mod_pos_bound; lia).
    destruct (negb _); inv_bind; apply decode_binary_loop_prefix in H as [tl ->];
      rewrite nth_error_app1 by (rewrite length_app; simpl; lia);
      rewrite nth_error_app2, Nat.sub_diag by lia; simpl; split; congruence.
  - destruct (negb _); inv_bind;
      (edestruct (IH (cidx + 1) _ _ _ ltac:(lia) H i ltac:(simpl in Hi; lia)) as [nb [Hnb Hiff]];
       exists nb; rewrite length_app in Hiff; simpl in Hiff;
       replace (cidx + Z.of_nat (S i)) with (cidx + 1 + Z.of_nat i) by lia;
       replace (length values + S i)%nat with (length values + 1 + i)%nat by lia;
       split; assumption).
Qed.

Lemma decode_binary_loop_supported : forall m bm buffer columns cidx index values vs,
  decode_binary_loop m bm buffer columns cidx index values = Ok vs ->
  forall i t nb, nth_error columns i = Some t ->
  nth_error bm (Z.to_nat ((cidx + Z.of_nat i + 2) / 8)) = Some nb ->
  0 <= cidx ->
  Z.testbit (b2z nb) ((cidx + Z.of_nat i + 2) mod 8) = false ->
  supported t = true.
Proof.
  induction columns as [|t0 columns IH]; intros cidx index values vs H i t nb Ht Hnb Hc Hbit;
    [destruct i; discriminate|].
  cbn [decode_binary_loop] in H. inv_bind.
  apply index_byte_ok in E as [b [Hb ->]].
  destruct i as [|i].
  - simpl in Ht. injection Ht as <-. rewrite Z.add_0_r in Hnb, Hbit.
    rewrite Hb in Hnb. injection Hnb as <-.
    rewrite <- mask_testbit in Hbit by (apply Z.mod_pos_bound; lia).
    rewrite Hbit in H. inv_bind. destruct t0; try reflexivity. discriminate E.
  - simpl in Ht. destruct (negb _); inv_bind;
      (eapply IH; [exact H | exact Ht | | | ]; 
       [ replace (cidx + 1 + Z.of_nat i) with (cidx + Z.of_nat (S i)) by lia; exact Hnb
       | lia
       | replace (cidx + 1 + Z.of_nat i) with (cidx + Z.of_nat (S i)) by lia; exact Hbit ]).
Qed.

Lemma slice_from_cons1 : forall A (b : A) rest, slice_from (b :: rest) 1 = Ok rest.
Proof.
  intros A b rest. unfold slice_from. cbn [length].
  destruct (Z.ltb_spec (Z.of_nat (S (length rest))) 1); [lia | reflexivity].
Qed.

Lemma some_eq : forall A (a b : A), Some a = Some b -> a = b.
Proof. congruence. Qed.

Lemma index_byte_cons0 : forall b rest, index_byte (b :: rest) 0 = Ok (b2z b).
Proof. reflexivity. Qed.

(** Inversion of a successful binary-mode decode. *)
Lemma decode_binary_ok : forall m buf columns r,
  decode m buf columns true = Ok r ->
  exists rest,
    buf = x00 :: rest /\
    (Z.to_nat ((Z.of_nat (length columns) + 9) / 8) <= length rest)%nat /\
    buffer r = skipn (Z.to_nat ((Z.of_nat (length columns) + 9) / 8)) rest /\
    binary r = true /\
    decode_binary_loop m rest (buffer r) columns 0 0 [] = Ok (values r).
Proof.
  intros m buf columns r H. cbn [decode negb] in H. inv_bind.
  destruct buf as [|h rest]; [discriminate|]. cbn in E. injection E as <-.
  destruct (b2z h =? 0) eqn:Eh; cbn [negb] in H; [|discriminate].
  apply Z.eqb_eq, b2z_zero in Eh. subst h. inv_bind.
  injection H as <-. exists rest. unfold advance, slice_from in E.
  destruct (_ <? _) eqn:Hl; [discriminate|]. injection E as <-.
  apply Z.ltb_ge in Hl. repeat split; try assumption. lia.
Qed.

Lemma bit_position : forall i,
  Z.to_nat ((0 + Z.of_nat i + 2) / 8) = ((i + 2) / 8)%nat /\
  (0 + Z.of_nat i + 2) mod 8 = Z.of_nat ((i + 2) mod 8).
Proof.
  intros i. split.
  - assert (Z.of_nat ((i + 2) / 8) = (0 + Z.of_nat i + 2) / 8) as Hd
      by (rewrite Nat2Z.inj_div, Nat2Z.inj_add; reflexivity).
    rewrite <- Hd. apply Nat2Z.id.
  - rewrite Nat2Z.inj_mod, Nat2Z.inj_add. reflexivity.
Qed.

(** ** C1 *)

(** Claim C1, refuted: a length prefix whose declared-width length bytes are
    missing makes [Row::decode] panic (byteorder's [read_u16] on a short
    slice), and a column value that extends past the buffer is accepted:
    the decode returns [Ok] with a range ending past [buffer.len()]. *)
Lemma decode_truncated_counterexample :
  decode Debug [xfc] [VAR_CHAR] false = Panic /\
  decode Release [xfc] [VAR_CHAR] false = Panic /\
  decode Debug [x00; x00] [INT] true = Ok (mkRow [] [Some (mkRange 0 4)] true) /\
  decode Release [x00; x00] [INT] true = Ok (mkRow [] [Some (mkRange 0 4)] true).
Proof. repeat split; reflexivity. Qed.

(** Claim C1, as amended: [Row::decode] has no truncation error.  Its only
    error result is the ProtocolViolation of a binary row whose header byte
    is not 0x00; a length prefix whose declared-width length bytes are
    missing (or an empty slice) makes the length-encoded decoder panic. *)
Theorem decode_no_truncation_error :
  (forall m buf columns binary e,
     decode m buf columns binary = Err e ->
     binary = true /\
     exists h rest, buf = h :: rest /\ b2z h <> 0 /\ e = ProtocolViolation (b2z h)) /\
  (forall m b rest,
     (b2z b = 0xFC /\ (length rest < 2)%nat \/
      b2z b = 0xFD /\ (length rest < 3)%nat \/
      b2z b = 0xFE /\ (length rest < 8)%nat) ->
     get_lenenc m (b :: rest) = Panic) /\
  (forall m, get_lenenc m [] = Panic).
Proof.
  split; [|split].
  - intros m buf columns [|] e H; cbn [decode negb] in H.
    + inv_bind. destruct buf as [|h rest]; [discriminate|]. cbn in E. injection E as <-.
      destruct (b2z h =? 0) eqn:Eh; cbn [negb] in H.
      * inv_bind; exfalso; eauto with noerr.
      * injection H as <-. apply Z.eqb_neq in Eh. split; [reflexivity|]. eauto.
    + inv_bind; exfalso; eauto with noerr.
  - intros m b rest Hb. unfold get_lenenc. rewrite index_byte_cons0. cbn [bind].
    rewrite slice_from_cons1. cbn [bind].
    unfold read_u16, read_u24, read_u64, read_uint_le.
    destruct Hb as [[-> Hl]|[[-> Hl]|[-> Hl]]]; apply Nat.ltb_lt in Hl;
      cbn [Z.eqb Pos.eqb]; rewrite Hl; reflexivity.
  - reflexivity.
Qed.

Lemma decode_no_truncation_error_witness :
  (b2z xfc = 0xFC /\ (length (@nil byte) < 2)%nat) /\ get_lenenc Debug [xfc] = Panic.
Proof.
  split; [split; [reflexivity | simpl; lia]|].
  apply (proj1 (proj2 decode_no_truncation_error)). left. split; [reflexivity | simpl; lia].
Defined.

(** ** C2 *)

(** Claim C2, refuted: a non-null column of a wire type outside the
    resolver's table (here 246, NEWDECIMAL) reaches [unimplemented!], a
    panic, not an UnsupportedType error. *)
Lemma decode_unknown_type_counterexample :
  decode Debug [x00; x00] [OTHER 246] true = Panic /\
  decode Release [x00; x00] [OTHER 246] true = Panic.
Proof. split; reflexivity. Qed.

(** Claim C2, as amended: in binary mode (header 0x00), when some column
    [i] has a wire type outside the resolver's table and its null bit
    (bit [(i+2) % 8] of bitmap byte [(i+2) / 8]) is clear, [Row::decode]
    panics: it returns neither a row nor an error. *)
Theorem decode_unknown_type_panics : forall m rest columns i id nb,
  nth_error columns i = Some (OTHER id) ->
  nth_error rest ((i + 2) / 8) = Some nb ->
  Z.testbit (b2z nb) (Z.of_nat ((i + 2) mod 8)) = false ->
  decode m (x00 :: rest) columns true = Panic.
Proof.
  intros m rest columns i id nb Hc Hnb Hbit.
  destruct (decode m (x00 :: rest) columns true) as [r|e|] eqn:D; [| |reflexivity].
  - pose proof D as D'. apply decode_binary_ok in D' as [rest' [Hr [_ [_ [_ Hl]]]]].
    injection Hr as <-. destruct (bit_position i) as [P1 P2].
    assert (supported (OTHER id) = true) as Hs.
    { eapply decode_binary_loop_supported; [exact Hl | exact Hc | | lia | ].
      - rewrite P1. exact Hnb.
      - rewrite P2. exact Hbit. }
    discriminate Hs.
  - apply (proj1 decode_no_truncation_error) in D as [_ [h [rest' [Hr [Hh _]]]]].
    injection Hr as <- _. exfalso. apply Hh. reflexivity.
Qed.

Lemma decode_unknown_type_panics_witness :
  nth_error [INT; OTHER 246] 1 = Some (OTHER 246) /\
  nth_error [x01] ((1 + 2) / 8) = Some x01 /\
  Z.testbit (b2z x01) (Z.of_nat ((1 + 2) mod 8)) = false /\
  decode Debug [x00; x01] [INT; OTHER 246] true = Panic.
Proof.
  split; [reflexivity|]. split; [reflexivity|]. split; [reflexivity|].
  apply (decode_unknown_type_panics Debug [x01] [INT; OTHER 246] 1 246 x01);
    reflexivity.
Defined.

(** ** C3 *)

(** Claim C3, refuted: for the prefix 0xFE followed by the 8-byte length
    L = 2^64 - 1 the span 9 + L does not fit in a [usize]; the addition
    panics with overflow checks and wraps to 8 without them. *)
Lemma get_lenenc_overflow_counterexample :
  lenenc_span_spec fe_max = Some (9 + (2 ^ 64 - 1)) /\
  get_lenenc Debug fe_max = Panic /\
  get_lenenc Release fe_max = Ok 8.
Proof. repeat split; reflexivity. Qed.

(** Claim C3, as amended: for every byte slice that holds the whole
    declared length prefix, the length-encoded decoder returns the total
    span of spec 4.1 (1 for 0xFB, 1+b for b < 0xFB, 3+L, 4+L, 9+L for 0xFC,
    0xFD, 0xFE with a 2-, 3-, 8-byte little-endian L) whenever that span
    fits in a [usize] (is below 2^64). *)
Theorem get_lenenc_span : forall m buf T,
  lenenc_span_spec buf = Some T -> T < USIZE_MOD -> get_lenenc m buf = Ok T.
Proof.
  intros m [|b rest] T H HT; [discriminate|].
  unfold get_lenenc. rewrite index_byte_cons0. cbn [bind].
  pose proof (b2z_bounds b) as Hb. cbn [lenenc_span_spec] in H.
  destruct (Z.ltb_spec (b2z b) 0xFB).
  - injection H as <-.
    repeat rewrite (proj2 (Z.eqb_neq _ _)) by lia. apply usize_add_small. exact HT.
  - destruct (Z.eqb_spec (b2z b) 0xFB); [congruence|].
    rewrite slice_from_cons1. cbn [bind].
    unfold read_u16, read_u24, read_u64, read_uint_le.
    destruct (Z.eqb_spec (b2z b) 0xFC);
      [ do 2 (destruct rest as [|? rest]; [discriminate|]) |
    destruct (Z.eqb_spec (b2z b) 0xFD);
      [ do 3 (destruct rest as [|? rest]; [discriminate|]) |
    destruct (Z.eqb_spec (b2z b) 0xFE);
      [ do 8 (destruct rest as [|? rest]; [discriminate|]) | discriminate ]]];
    apply some_eq in H; subst T; cbn [length firstn le_value Nat.ltb Nat.leb bind];
    rewrite usize_add_small; try (f_equal; ring); lia.
Qed.

Lemma get_lenenc_span_witness :
  lenenc_span_spec [xfd; x01; x02; x03] = Some 197125 /\ 197125 < USIZE_MOD /\
  get_lenenc Release [xfd; x01; x02; x03] = Ok 197125.
Proof.
  split; [reflexivity|]. split; [reflexivity|].
  apply get_lenenc_span; reflexivity.
Defined.

(** ** C4 *)

Lemma null_len_nat : forall n,
  Z.to_nat ((Z.of_nat n + 9) / 8) = ((n + 9) / 8)%nat.
Proof.
  intros n.
  assert (Z.of_nat ((n + 9) / 8) = (Z.of_nat n + 9) / 8) as Hd
    by (rewrite Nat2Z.inj_div, Nat2Z.inj_add; reflexivity).
  rewrite <- Hd. apply Nat2Z.id.
Qed.

(** Claim C4: in binary mode, for [n] columns, a successful [Row::decode]
    has read the header 0x00 and a null bitmap of exactly [(n+9)/8] bytes
    right after it (the row buffer is what follows), and for every column
    [i < n] the bitmap byte [(i+2)/8] lies inside those bytes and the column
    is recorded as NULL iff bit [(i+2) % 8] of that byte, i.e. the bit under
    mask [1 << ((i+2) % 8)], is set. *)
Theorem decode_null_bitmap : forall m buf columns r,
  decode m buf columns true = Ok r ->
  exists rest,
    buf = x00 :: rest /\
    ((length columns + 9) / 8 <= length rest)%nat /\
    buffer r = skipn ((length columns + 9) / 8) rest /\
    forall i, (i < length columns)%nat ->
      ((i + 2) / 8 < (length columns + 9) / 8)%nat /\
      exists nb, nth_error rest ((i + 2) / 8) = Some nb /\
        (nth_error (values r) i = Some None <->
         Z.testbit (b2z nb) (Z.of_nat ((i + 2) mod 8)) = true).
Proof.
  intros m buf columns r H.
  apply decode_binary_ok in H as [rest [-> [Hlen [Hbuf [_ Hloop]]]]].
  rewrite null_len_nat in Hlen, Hbuf.
  exists rest. split; [reflexivity|]. split; [exact Hlen|]. split; [exact Hbuf|].
  intros i Hi. split.
  - pose proof (Nat.div_mod_eq (length columns + 9) 8).
    pose proof (Nat.div_mod_eq (i + 2) 8).
    pose proof (Nat.mod_upper_bound (length columns + 9) 8 ltac:(lia)).
    pose proof (Nat.mod_upper_bound (i + 2) 8 ltac:(lia)).
    lia.
  - destruct (decode_binary_loop_nulls m rest (buffer r) columns 0 0 [] (values r)
                 ltac:(lia) Hloop i Hi)
      as [nb [Hnb Hiff]].
    destruct (bit_position i) as [P1 P2]. rewrite P1 in Hnb. rewrite P2 in Hiff.
    exists nb. split; [exact Hnb | exact Hiff].
Qed.

Lemma decode_null_bitmap_witness :
  decode Debug [x00; x04] [INT] true = Ok (mkRow [] [None] true) /\
  exists rest,
    [x00; x04] = x00 :: rest /\
    ((length [INT] + 9) / 8 <= length rest)%nat /\
    buffer (mkRow [] [None] true) = skipn ((length [INT] + 9) / 8) rest /\
    forall i, (i < length [INT])%nat ->
      ((i + 2) / 8 < (length [INT] + 9) / 8)%nat /\
      exists nb, nth_error rest ((i + 2) / 8) = Some nb /\
        (nth_error (values (mkRow [] [None] true)) i = Some None <->
         Z.testbit (b2z nb) (Z.of_nat ((i + 2) mod 8)) = true).
Proof.
  split; [reflexivity|]. apply decode_null_bitmap with (m := Debug). reflexivity.
Defined.

(** ** C5 *)

(** Claim C5, refuted: a non-null string column whose prefix is 0xFE with
    the 8-byte length 2^64 - 1 has span 9 + (2^64 - 1) by spec 4.1, but the
    resolved size wraps around to 8 without overflow checks. *)
Lemma field_size_overflow_counterexample :
  lenenc_span_spec fe_max = Some (9 + (2 ^ 64 - 1)) /\
  field_size Release VAR_CHAR fe_max 0 = Ok 8 /\
  decode Release (x00 :: x00 :: fe_max) [VAR_CHAR] true =
    Ok (mkRow fe_max [Some (mkRange 0 8)] true).
Proof. repeat split; reflexivity. Qed.

(** Claim C5, as amended: whenever the Field Size Resolver yields a size at
    the current offset, it is 1, 2, 4, 8, 5 for tiny-int, small-int, int,
    big-int, date; [1 + N] for time, timestamp, datetime where [N] is the
    byte at the offset; and for tiny/medium/long blob, char, text, varchar
    the spec 4.1 total span of the length-encoded field at the offset,
    whenever that span fits in a [usize]. It yields no size for any other
    wire type. *)
Theorem field_size_rule : forall m t buffer index k,
  field_size m t buffer index = Ok k ->
  match t with
  | TINY_INT => k = 1
  | SMALL_INT => k = 2
  | INT => k = 4
  | BIG_INT => k = 8
  | DATE => k = 5
  | TIME | TIMESTAMP | DATETIME =>
      exists n, nth_error buffer (Z.to_nat index) = Some n /\ k = 1 + b2z n
  | TINY_BLOB | MEDIUM_BLOB | LONG_BLOB | CHAR | TEXT | VAR_CHAR =>
      forall T, lenenc_span_spec (skipn (Z.to_nat index) buffer) = Some T ->
                T < USIZE_MOD -> k = T
  | OTHER _ => False
  end.
Proof.
  intros m t buffer index k H.
  destruct t; cbn [field_size] in H; try discriminate H; inv_bind;
    try (injection H as <-; reflexivity);
    try (apply index_byte_ok in E as [b [Hb ->]]; exists b; split; [exact Hb|];
         pose proof (b2z_bounds b);
         rewrite usize_add_small in H by (unfold USIZE_MOD; lia);
         injection H as <-; reflexivity);
    (intros T HT HTm; unfold slice_from in E; destruct (_ <? _); [discriminate|];
     injection E as <-; rewrite (get_lenenc_span m _ T HT HTm) in H; congruence).
Qed.

Lemma field_size_rule_witness :
  field_size Debug TIME [x02; x00; x00] 0 = Ok 3 /\
  exists n, nth_error [x02; x00; x00] (Z.to_nat 0) = Some n /\ 3 = 1 + b2z n.
Proof.
  split; [reflexivity|]. apply (field_size_rule Debug TIME). reflexivity.
Defined.

(** ** C6 *)

(** Claim C6: in binary mode, a payload whose first byte (the row header)
    is not 0x00 is rejected with a ProtocolViolation error carrying that
    byte; the outcome does not depend on any byte after the header. *)
Theorem decode_bad_header : forall m h rest columns,
  b2z h <> 0 ->
  decode m (h :: rest) columns true = Err (ProtocolViolation (b2z h)).
Proof.
  intros m h rest columns Hh. cbn [decode negb get_u8 bind].
  rewrite (proj2 (Z.eqb_neq _ _) Hh). reflexivity.
Qed.

Lemma decode_bad_header_witness :
  b2z x01 <> 0 /\
  decode Release [x01; x00; x00] [INT] true = Err (ProtocolViolation 1).
Proof.
  split; [discriminate|]. apply (decode_bad_header Release x01). discriminate.
Defined.

(** ** C7 *)

(** Claim C7, refuted: a fixed-width column whose bytes are missing yields
    a row whose range [0, 4) ends past the empty buffer, and [Row::get]
    panics on it; without overflow checks a length 0xFE prefix with
    L = 2^64 - 10 makes [index + size] wrap, giving the range [1, 0). *)
Lemma decode_range_bounds_counterexample :
  decode Debug [x00; x00] [INT] true = Ok (mkRow [] [Some (mkRange 0 4)] true) /\
  get (mkRow [] [Some (mkRange 0 4)] true) 0 = Panic /\
  decode Release [x00; x00; x00; xfe; xf6; xff; xff; xff; xff; xff; xff; xff]
    [TINY_INT; VAR_CHAR] true =
  Ok (mkRow [x00; xfe; xf6; xff; xff; xff; xff; xff; xff; xff]
            [Some (mkRange 0 1); Some (mkRange 1 0)] true).
Proof. repeat split; reflexivity. Qed.

(** Claim C7, as amended: with overflow checks, every present range of a
    row produced by [Row::decode] (either mode) satisfies
    [0 <= start <= end], but [end] is not checked against [buffer.len()]:
    [Row::get] on a present column yields the slice [buffer[start..end]]
    when [end <= buffer.len()] and panics otherwise. *)
Theorem decode_ranges_ordered :
  (forall buf columns binary r,
     decode Debug buf columns binary = Ok r ->
     forall rg, In (Some rg) (values r) -> 0 <= start rg <= end_ rg) /\
  (forall r i rg,
     nth_error (values r) (Z.to_nat i) = Some (Some rg) ->
     0 <= start rg <= end_ rg ->
     (end_ rg <= Z.of_nat (length (buffer r)) ->
        get r i = Ok (Some (firstn (Z.to_nat (end_ rg - start rg))
                                   (skipn (Z.to_nat (start rg)) (buffer r))))) /\
     (Z.of_nat (length (buffer r)) < end_ rg -> get r i = Panic)).
Proof.
  split.
  - intros buf columns [|] r H.
    + apply decode_binary_ok in H as [rest [_ [_ [_ [_ Hloop]]]]].
      eapply decode_binary_loop_ranges; [ | | exact Hloop]; [lia | intros rg []].
    + cbn [decode negb] in H. inv_bind. injection H as <-. cbn [values].
      eapply decode_text_loop_ranges; [ | | exact E]; [lia | intros rg []].
  - intros r i rg Hnth Hrg. unfold get, index_slice. rewrite Hnth. cbn [bind].
    unfold slice_range. rewrite (proj2 (Z.ltb_ge _ _)) by lia. cbn [orb]. split; intros Hl.
    + rewrite (proj2 (Z.ltb_ge _ _)) by lia. reflexivity.
    + rewrite (proj2 (Z.ltb_lt _ _)) by lia. reflexivity.
Qed.

Lemma decode_ranges_ordered_witness :
  (decode Debug [x00; x00; x05; x06] [TINY_INT; TINY_INT] true =
     Ok (mkRow [x05; x06] [Some (mkRange 0 1); Some (mkRange 1 2)] true) /\
   In (Some (mkRange 1 2)) [Some (mkRange 0 1); Some (mkRange 1 2)] /\
   0 <= 1 <= 2) /\
  get (mkRow [x05; x06] [Some (mkRange 0 1); Some (mkRange 1 2)] true) 1 =
    Ok (Some [x06]).
Proof.
  split.
  - split; [reflexivity|]. split; [right; left; reflexivity|].
    exact (proj1 decode_ranges_ordered [x00; x00; x05; x06] [TINY_INT; TINY_INT] true
             (mkRow [x05; x06] [Some (mkRange 0 1); Some (mkRange 1 2)] true)
             eq_refl (mkRange 1 2) (or_intror (or_introl eq_refl))).
  - apply (proj1 (proj2 decode_ranges_ordered
             (mkRow [x05; x06] [Some (mkRange 0 1); Some (mkRange 1 2)] true) 1
             (mkRange 1 2) eq_refl ltac:(simpl; lia))).
    simpl. lia.
Defined.

(** ** C8 *)

(** Claim C8: a successful [Row::decode] (either mode) yields exactly one
    values entry per column, and [Row::len] is the number of columns. *)
Theorem decode_values_length : forall m buf columns binary r,
  decode m buf columns binary = Ok r ->
  length (values r) = length columns /\ len r = Z.of_nat (length columns).
Proof.
  intros m buf columns [|] r H.
  - apply decode_binary_ok in H as [rest [_ [_ [_ [_ Hloop]]]]].
    apply decode_binary_loop_length in Hloop. unfold len. simpl in Hloop. lia.
  - cbn [decode negb] in H. inv_bind. injection H as <-. unfold len. cbn [values].
    apply decode_text_loop_length in E. simpl in E. lia.
Qed.

(** The 26-column row of the source's [null_bitmap_test]. *)
Lemma decode_values_length_witness :
  decode Debug test_row test_types true = Ok test_decoded /\
  length (values test_decoded) = length test_types /\
  len test_decoded = 26.
Proof.
  assert (decode Debug test_row test_types true = Ok test_decoded) as H
    by (vm_compute; reflexivity).
  split; [exact H|]. exact (decode_values_length Debug _ _ _ _ H).
Defined.

(** ** C9 *)

(** Claim C9 against the code: on the text row [0x00, 0x02, 0x00, 0x00]
    (an empty string, then the 2-byte string [00 00]) the spec reads the
    second prefix at offset 1 and records [1, 4); [Row::decode] indexes the
    already advanced cursor with the cumulative offset, reads the prefix at
    offset 2 and records [1, 2). *)
Theorem decode_text_double_offset : forall m,
  decode m [x00; x02; x00; x00] [VAR_CHAR; VAR_CHAR] false =
    Ok (mkRow [x00; x02; x00; x00] [Some (mkRange 0 1); Some (mkRange 1 2)] false) /\
  decode_text_spec m [x00; x02; x00; x00] [VAR_CHAR; VAR_CHAR] 0 =
    Ok [Some (mkRange 0 1); Some (mkRange 1 4)].
Proof. intros []; split; reflexivity. Qed.

(** ** C10 *)

(** Claim C10: a first byte 0xFF is taken as a literal length: the decoder
    returns the span 1 + 255 = 256, with no error and no separate case. *)
Theorem get_lenenc_ff : forall m rest, get_lenenc m (xff :: rest) = Ok 256.
Proof. intros [] rest; reflexivity. Qed.

(** ** Further properties of the code *)

Lemma chain_from_app : forall s xs ys,
  chain_from s (xs ++ ys) =
  match chain_from s xs with Some e => chain_from e ys | None => None end.
Proof.
  intros s xs. revert s.
  induction xs as [|[rg|] xs IH]; intros s ys; cbn [app chain_from]; auto.
  destruct (start rg =? s); auto.
Qed.

Lemma chain_from_snoc_present : forall s acc i e,
  chain_from s acc = Some i -> chain_from s (acc ++ [Some (mkRange i e)]) = Some e.
Proof.
  intros s acc i e H. rewrite chain_from_app, H. cbn. rewrite Z.eqb_refl. reflexivity.
Qed.

Lemma chain_from_snoc_absent : forall s acc i,
  chain_from s acc = Some i -> chain_from s (acc ++ [None]) = Some i.
Proof. intros s acc i H. rewrite chain_from_app, H. reflexivity. Qed.

Lemma decode_text_loop_shape : forall m columns buf index values vs,
  decode_text_loop m columns buf index values = Ok vs ->
  chain_from 0 values = Some index ->
  (forall v, In v values -> v <> None) ->
  (exists e, chain_from 0 vs = Some e) /\ (forall v, In v vs -> v <> None).
Proof.
  induction columns as [|t columns IH]; intros buf index values vs H Hc Hn;
    cbn [decode_text_loop] in H.
  - injection H as <-. eauto.
  - inv_bind. eapply IH; [exact H | |].
    + apply chain_from_snoc_present. exact Hc.
    + intros v Hv. apply in_app_or in Hv as [Hv|[<-|[]]]; [auto | discriminate].
Qed.

Lemma decode_binary_loop_chain : forall m bm buffer columns cidx index values vs,
  decode_binary_loop m bm buffer columns cidx index values = Ok vs ->
  chain_from 0 values = Some index ->
  exists e, chain_from 0 vs = Some e.
Proof.
  induction columns as [|t columns IH]; intros cidx index values vs H Hc;
    cbn [decode_binary_loop] in H.
  - injection H as <-. eauto.
  - inv_bind. destruct (negb _); inv_bind; (eapply IH; [exact H|]).
    + apply chain_from_snoc_absent. exact Hc.
    + apply chain_from_snoc_present. exact Hc.
Qed.

(** Text mode keeps the whole payload as the row buffer and never records a
    NULL: every column of a successfully decoded text row is present. *)
Theorem decode_text_all_present : forall m buf columns r,
  decode m buf columns false = Ok r ->
  buffer r = buf /\ binary r = false /\ (forall v, In v (values r) -> v <> None).
Proof.
  intros m buf columns r H. cbn [decode negb] in H. inv_bind. injection H as <-.
  split; [reflexivity|]. split; [reflexivity|].
  eapply decode_text_loop_shape; [exact E | reflexivity | intros v []].
Qed.

Lemma decode_text_all_present_witness :
  decode Debug [xfb; x00; x00] [VAR_CHAR; TEXT] false =
    Ok (mkRow [xfb; x00; x00] [Some (mkRange 0 1); Some (mkRange 1 2)] false) /\
  buffer (mkRow [xfb; x00; x00] [Some (mkRange 0 1); Some (mkRange 1 2)] false)
    = [xfb; x00; x00].
Proof.
  assert (decode Debug [xfb; x00; x00] [VAR_CHAR; TEXT] false =
    Ok (mkRow [xfb; x00; x00] [Some (mkRange 0 1); Some (mkRange 1 2)] false)) as H
    by reflexivity.
  split; [exact H|]. exact (proj1 (decode_text_all_present _ _ _ _ H)).
Defined.

(** Text mode lays the ranges end to end: the first starts at offset 0 and
    each one starts where the previous one ends. *)
Theorem decode_text_contiguous : forall m buf columns r,
  decode m buf columns false = Ok r ->
  exists e, chain_from 0 (values r) = Some e.
Proof.
  intros m buf columns r H. cbn [decode negb] in H. inv_bind. injection H as <-.
  eapply decode_text_loop_shape; [exact E | reflexivity | intros v []].
Qed.

Lemma decode_text_contiguous_witness :
  decode Debug [xfb; x00; x00] [VAR_CHAR; TEXT] false =
    Ok (mkRow [xfb; x00; x00] [Some (mkRange 0 1); Some (mkRange 1 2)] false) /\
  exists e, chain_from 0 [Some (mkRange 0 1); Some (mkRange 1 2)] = Some e.
Proof.
  assert (decode Debug [xfb; x00; x00] [VAR_CHAR; TEXT] false =
    Ok (mkRow [xfb; x00; x00] [Some (mkRange 0 1); Some (mkRange 1 2)] false)) as H
    by reflexivity.
  split; [exact H|]. exact (decode_text_contiguous _ _ _ _ H).
Defined.

(** Binary mode lays the present values end to end in the row buffer from
    offset 0; a NULL column consumes no bytes. *)
Theorem decode_binary_contiguous : forall m buf columns r,
  decode m buf columns true = Ok r ->
  exists e, chain_from 0 (values r) = Some e.
Proof.
  intros m buf columns r H.
  apply decode_binary_ok in H as [rest [_ [_ [_ [_ Hloop]]]]].
  eapply decode_binary_loop_chain; [exact Hloop | reflexivity].
Qed.

Lemma decode_binary_contiguous_witness :
  decode Debug test_row test_types true = Ok test_decoded /\
  exists e, chain_from 0 (values test_decoded) = Some e.
Proof.
  assert (decode Debug test_row test_types true = Ok test_decoded) as H
    by (vm_compute; reflexivity).
  split; [exact H|]. exact (decode_binary_contiguous _ _ _ _ H).
Defined.

Lemma decode_text_loop_types : forall m c1 c2 buf index values,
  length c1 = length c2 ->
  decode_text_loop m c1 buf index values = decode_text_loop m c2 buf index values.
Proof.
  induction c1 as [|t1 c1 IH]; intros [|t2 c2] buf index values Hl;
    try discriminate Hl; [reflexivity|].
  cbn [decode_text_loop]. injection Hl as Hl.
  repeat match goal with
  | |- bind ?x _ = bind ?x _ => destruct x; cbn [bind]; try reflexivity
  end.
  apply IH. exact Hl.
Qed.

(** Text mode never looks at the column wire types: two column lists of the
    same length decode a payload identically. *)
Theorem decode_text_ignores_types : forall m buf c1 c2,
  length c1 = length c2 -> decode m buf c1 false = decode m buf c2 false.
Proof.
  intros m buf c1 c2 Hl. cbn [decode negb].
  rewrite (decode_text_loop_types m c1 c2 buf 0 [] Hl). reflexivity.
Qed.

Lemma decode_text_ignores_types_witness :
  length [INT; OTHER 246] = length [VAR_CHAR; TEXT] /\
  decode Debug [x00; x00] [INT; OTHER 246] false =
    decode Debug [x00; x00] [VAR_CHAR; TEXT] false.
Proof.
  split; [reflexivity|]. apply decode_text_ignores_types. reflexivity.
Defined.

(** With no columns, text mode accepts any payload (even an empty one),
    while binary mode still needs the header and one bitmap byte
    ((0 + 9) / 8 = 1): a lone header panics, and otherwise the buffer is what
    follows that byte. *)
Theorem decode_zero_columns : forall m,
  (forall buf, decode m buf [] false = Ok (mkRow buf [] false)) /\
  decode m [x00] [] true = Panic /\
  (forall b rest, decode m (x00 :: b :: rest) [] true = Ok (mkRow rest [] true)).
Proof.
  intros m. split; [reflexivity|]. split; [reflexivity|].
  intros b rest. cbn [decode negb get_u8 bind]. change (b2z x00 =? 0) with true.
  cbn [negb]. change ((Z.of_nat (length (@nil TypeId)) + 9) / 8) with 1.
  unfold advance. rewrite slice_from_cons1. reflexivity.
Qed.

(** [Row::get] panics for an index at or past [Row::len], returns [None]
    for a NULL column, and returns an (empty) slice, not [None], for a
    present empty range. *)
Theorem get_edges :
  (forall r i, 0 <= i -> len r <= i -> get r i = Panic) /\
  (forall r i, nth_error (values r) (Z.to_nat i) = Some None -> get r i = Ok None) /\
  (forall r i s, nth_error (values r) (Z.to_nat i) = Some (Some (mkRange s s)) ->
     0 <= s <= Z.of_nat (length (buffer r)) -> get r i = Ok (Some [])).
Proof.
  split; [|split].
  - intros r i Hi Hl. unfold get, index_slice, len in *.
    rewrite (proj2 (nth_error_None _ _)) by lia. reflexivity.
  - intros r i H. unfold get, index_slice. rewrite H. reflexivity.
  - intros r i s H Hs. unfold get, index_slice. rewrite H. cbn [bind start end_].
    unfold slice_range. rewrite Z.ltb_irrefl, (proj2 (Z.ltb_ge _ _)) by lia.
    rewrite Z.sub_diag. reflexivity.
Qed.

Lemma get_edges_witness :
  get (mkRow [] [None; Some (mkRange 0 0)] true) 2 = Panic /\
  get (mkRow [] [None; Some (mkRange 0 0)] true) 0 = Ok None /\
  get (mkRow [] [None; Some (mkRange 0 0)] true) 1 = Ok (Some []).
Proof.
  split; [|split].
  - apply (proj1 get_edges); [lia | reflexivity].
  - apply (proj1 (proj2 get_edges)). reflexivity.
  - apply (proj2 (proj2 get_edges) _ 1 0); [reflexivity | simpl; lia].
Defined.

(** With overflow checks, every length-encoded field spans at least one
    byte (its prefix). *)
Theorem get_lenenc_debug_pos : forall buf k,
  get_lenenc Debug buf = Ok k -> 1 <= k.
Proof.
  intros buf k H. unfold get_lenenc in H. inv_bind.
  pose proof (index_byte_range _ _ _ E).
  repeat (destruct (_ =? _)); inv_bind;
    try (injection H as <-; lia);
    try (unfold read_u16, read_u24, read_u64, read_uint_le in E1;
         destruct (_ <? _)%nat; [discriminate|injection E1 as <-]);
    apply usize_add_debug in H; destruct H as [-> _];
    try match goal with |- context [le_value ?l] => pose proof (le_value_nonneg l) end;
    lia.
Qed.

Lemma get_lenenc_debug_pos_witness :
  get_lenenc Debug [x00] = Ok 1 /\ 1 <= 1.
Proof.
  split; [reflexivity|]. apply (get_lenenc_debug_pos [x00]). reflexivity.
Defined.

Lemma index_byte_app : forall buf tail i v,
  index_byte buf i = Ok v -> index_byte (buf ++ tail) i = Ok v.
Proof.
  intros buf tail i v H. unfold index_byte in *.
  destruct (nth_error buf _) eqn:N; [|discriminate].
  rewrite nth_error_app1 by (apply nth_error_Some; congruence). rewrite N. exact H.
Qed.

Lemma slice_from_app : forall A (buf tail : list A) i s,
  slice_from buf i = Ok s -> slice_from (buf ++ tail) i = Ok (s ++ tail).
Proof.
  intros A buf tail i s H. unfold slice_from in *.
  destruct (Z.ltb_spec (Z.of_nat (length buf)) i); [discriminate|]. injection H as <-.
  rewrite length_app, (proj2 (Z.ltb_ge _ _)) by lia.
  rewrite skipn_app. replace (Z.to_nat i - length buf)%nat with 0%nat by lia.
  reflexivity.
Qed.

Lemma read_uint_le_app : forall n s tail v,
  read_uint_le n s = Ok v -> read_uint_le n (s ++ tail) = Ok v.
Proof.
  intros n s tail v H. unfold read_uint_le in *.
  destruct (Nat.ltb_spec (length s) n); [discriminate|]. injection H as <-.
  rewrite length_app, (proj2 (Nat.ltb_ge _ _)) by lia.
  rewrite firstn_app. replace (n - length s)%nat with 0%nat by lia.
  rewrite app_nil_r. reflexivity.
Qed.

(** Rewrites each step of a computation on [buf ++ tail] with the step that
    succeeded on [buf]. *)
Ltac push_app :=
  repeat match goal with
  | E : index_byte ?b ?i = Ok _ |- context [index_byte (?b ++ ?t) ?i] =>
      rewrite (index_byte_app b t i _ E); cbn [bind]
  | E : slice_from ?b ?i = Ok _ |- context [slice_from (?b ++ ?t) ?i] =>
      rewrite (slice_from_app _ b t i _ E); cbn [bind]
  | E : advance ?b ?i = Ok _ |- context [advance (?b ++ ?t) ?i] =>
      unfold advance in E |- *; rewrite (slice_from_app _ b t i _ E); cbn [bind]
  | E : read_uint_le ?n ?b = Ok _ |- context [read_uint_le ?n (?b ++ ?t)] =>
      rewrite (read_uint_le_app n b t _ E); cbn [bind]
  | E : usize_add ?m ?a ?b = Ok _ |- context [usize_add ?m ?a ?b] =>
      rewrite E; cbn [bind]
  end.

Lemma get_lenenc_app : forall m buf tail k,
  get_lenenc m buf = Ok k -> get_lenenc m (buf ++ tail) = Ok k.
Proof.
  intros m buf tail k H. unfold get_lenenc, read_u16, read_u24, read_u64 in *.
  inv_bind. push_app.
  repeat (destruct (_ =? _)); inv_bind; push_app; congruence.
Qed.

Lemma field_size_app : forall m t buffer tail index k,
  field_size m t buffer index = Ok k -> field_size m t (buffer ++ tail) index = Ok k.
Proof.
  intros m t buffer tail index k H.
  destruct t; cbn [field_size] in *; try discriminate H; inv_bind; push_app;
    first [reflexivity | assumption | apply get_lenenc_app; exact H].
Qed.

Lemma decode_text_loop_app : forall m columns buf tail index values vs,
  decode_text_loop m columns buf index values = Ok vs ->
  decode_text_loop m columns (buf ++ tail) index values = Ok vs.
Proof.
  induction columns as [|t columns IH]; intros buf tail index values vs H;
    cbn [decode_text_loop] in *; [exact H|].
  inv_bind. push_app.
  rewrite (get_lenenc_app _ _ tail _ E0). cbn [bind]. push_app.
  apply IH. exact H.
Qed.

Lemma decode_binary_loop_app : forall m bm buffer tail columns cidx index values vs,
  decode_binary_loop m bm buffer columns cidx index values = Ok vs ->
  decode_binary_loop m (bm ++ tail) (buffer ++ tail) columns cidx index values = Ok vs.
Proof.
  induction columns as [|t columns IH]; intros cidx index values vs H;
    cbn [decode_binary_loop] in *; [exact H|].
  inv_bind. push_app. destruct (negb _); inv_bind.
  - apply IH. exact H.
  - rewrite (field_size_app _ _ _ tail _ _ E0). cbn [bind]. push_app.
    apply IH. exact H.
Qed.

(** Trailing bytes after a successfully decoded row change nothing but the
    row buffer: the values are the same, in either mode. *)
Theorem decode_append : forall m buf columns binary r tail,
  decode m buf columns binary = Ok r ->
  decode m (buf ++ tail) columns binary = Ok (mkRow (buffer r ++ tail) (values r) binary).
Proof.
  intros m buf columns [|] r tail H; cbn [decode negb] in *.
  - inv_bind. destruct buf as [|h rest]; [discriminate|]. cbn in E. injection E as <-.
    destruct (b2z h =? 0) eqn:Eh; cbn [negb] in H; [|discriminate].
    inv_bind. injection H as <-. cbn [app get_u8 bind]. rewrite Eh. cbn [negb].
    push_app. rewrite (decode_binary_loop_app _ _ _ tail _ _ _ _ _ E0). reflexivity.
  - inv_bind. injection H as <-. rewrite (decode_text_loop_app _ _ _ tail _ _ _ E).
    reflexivity.
Qed.

Lemma decode_append_witness :
  decode Debug [x00; x00; x05] [TINY_INT] true =
    Ok (mkRow [x05] [Some (mkRange 0 1)] true) /\
  decode Debug ([x00; x00; x05] ++ [x07; x08]) [TINY_INT] true =
    Ok (mkRow ([x05] ++ [x07; x08]) [Some (mkRange 0 1)] true).
Proof.
  assert (decode Debug [x00; x00; x05] [TINY_INT] true =
    Ok (mkRow [x05] [Some (mkRange 0 1)] true)) as H by reflexivity.
  split; [exact H|]. exact (decode_append _ _ _ _ _ [x07; x08] H).
Defined.

Lemma decode_binary_loop_bits : forall m bm bm' buf columns cidx index values,
  0 <= cidx ->
  (forall c, cidx + 2 <= c < cidx + 2 + Z.of_nat (length columns) ->
     null_bit bm c = null_bit bm' c) ->
  decode_binary_loop m bm buf columns cidx index values =
  decode_binary_loop m bm' buf columns cidx index values.
Proof.
  induction columns as [|t columns IH]; intros cidx index values Hc Hb;
    cbn [decode_binary_loop]; [reflexivity|].
  cbn [length] in Hb. specialize (Hb (cidx + 2)) as Hb0.
  unfold null_bit in Hb0. unfold index_byte.
  destruct (nth_error bm _) as [b|], (nth_error bm' _) as [b'|];
    specialize (Hb0 ltac:(lia)); try discriminate Hb0; cbn [bind]; [|reflexivity].
  injection Hb0 as Hb0.
  rewrite !mask_testbit by (apply Z.mod_pos_bound; lia). rewrite Hb0.
  assert (forall index values,
    decode_binary_loop m bm buf columns (cidx + 1) index values =
    decode_binary_loop m bm' buf columns (cidx + 1) index values) as IH'.
  { intros index' values'. apply IH; [lia|]. intros c Hc'. apply Hb. lia. }
  destruct (Z.testbit (b2z b') ((cidx + 2) mod 8)); cbn [negb]; [apply IH'|].
  repeat match goal with
  | |- bind ?x _ = bind ?x _ => destruct x; cbn [bind]; try reflexivity
  end.
  apply IH'.
Qed.

Lemma null_bit_app : forall bm d c,
  (Z.to_nat (c / 8) < length bm)%nat -> null_bit (bm ++ d) c = null_bit bm c.
Proof.
  intros bm d c H. unfold null_bit. rewrite nth_error_app1 by exact H. reflexivity.
Qed.

Lemma bitmap_byte_bound : forall n c,
  0 <= c < 2 + Z.of_nat n -> (Z.to_nat (c / 8) < (n + 9) / 8)%nat.
Proof.
  intros n c Hc.
  assert (0 <= c / 8 <= (Z.of_nat n + 1) / 8) by
    (split; [apply Z.div_pos | apply Z.div_le_mono]; lia).
  rewrite <- null_len_nat.
  assert ((Z.of_nat n + 9) / 8 = (Z.of_nat n + 1) / 8 + 1) as ->.
  { replace (Z.of_nat n + 9) with ((Z.of_nat n + 1) + 1 * 8) by lia.
    rewrite Z.div_add by lia. reflexivity. }
  lia.
Qed.

Lemma advance_bitmap : forall (bm d : list byte) n,
  length bm = ((n + 9) / 8)%nat ->
  advance (bm ++ d) ((Z.of_nat n + 9) / 8) = Ok d.
Proof.
  intros bm d n Hl. unfold advance, slice_from. rewrite null_len_nat, length_app.
  rewrite (proj2 (Z.ltb_ge _ _)).
  - rewrite skipn_app, <- Hl, skipn_all, Nat.sub_diag. reflexivity.
  - rewrite <- null_len_nat in Hl.
    assert (0 <= (Z.of_nat n + 9) / 8) by (apply Z.div_pos; lia). lia.
Qed.

(** In binary mode the null bitmap of [n] columns is read only at bits
    [2 .. n+1]: two bitmaps of [(n+9)/8] bytes that agree there (whatever
    their two reserved low bits and their padding bits) decode the same
    payload identically. *)
Theorem decode_bitmap_used_bits : forall m bm bm' d columns,
  length bm = ((length columns + 9) / 8)%nat ->
  length bm' = ((length columns + 9) / 8)%nat ->
  (forall c, 2 <= c < 2 + Z.of_nat (length columns) -> null_bit bm c = null_bit bm' c) ->
  decode m (x00 :: bm ++ d) columns true = decode m (x00 :: bm' ++ d) columns true.
Proof.
  intros m bm bm' d columns Hl Hl' Hb. cbn [decode negb get_u8 bind].
  change (b2z x00 =? 0) with true. cbn [negb].
  rewrite (advance_bitmap bm d _ Hl), (advance_bitmap bm' d _ Hl'). cbn [bind].
  rewrite (decode_binary_loop_bits m (bm ++ d) (bm' ++ d)); [reflexivity | lia |].
  intros c Hc. rewrite !null_bit_app by (rewrite ?Hl, ?Hl'; apply bitmap_byte_bound; lia).
  apply Hb. lia.
Qed.

Lemma decode_bitmap_used_bits_witness :
  decode Debug ([x00] ++ [x03] ++ [x05]) [TINY_INT] true =
  decode Debug ([x00] ++ [xf8] ++ [x05]) [TINY_INT] true /\
  decode Debug [x00; x03; x05] [TINY_INT] true =
    Ok (mkRow [x05] [Some (mkRange 0 1)] true).
Proof.
  split; [|reflexivity].
  apply (decode_bitmap_used_bits Debug [x03] [xf8] [x05] [TINY_INT]);
    [reflexivity | reflexivity |].
  intros c Hc. simpl in Hc. assert (c = 2) as -> by lia. reflexivity.
Defined.

Lemma decode_binary_loop_all_null : forall m bm buf columns cidx index values,
  0 <= cidx ->
  (forall c, cidx + 2 <= c < cidx + 2 + Z.of_nat (length columns) ->
     null_bit bm c = Some true) ->
  decode_binary_loop m bm buf columns cidx index values =
  Ok (values ++ repeat None (length columns)).
Proof.
  induction columns as [|t columns IH]; intros cidx index values Hc Hb;
    cbn [decode_binary_loop].
  - rewrite app_nil_r. reflexivity.
  - cbn [length] in Hb. specialize (Hb (cidx + 2)) as Hb0.
    unfold null_bit in Hb0. unfold index_byte.
    destruct (nth_error bm _) as [b|]; specialize (Hb0 ltac:(lia)); [|discriminate].
    injection Hb0 as Hb0. cbn [bind].
    rewrite mask_testbit, Hb0 by (apply Z.mod_pos_bound; lia). cbn [negb].
    rewrite IH; [ | lia | intros c Hc'; apply Hb; lia].
    rewrite <- app_assoc. reflexivity.
Qed.

(** In binary mode a row whose [n] columns are all marked NULL decodes to
    [n] absent values whatever the column wire types, even ones outside the
    resolver's table, and whatever bytes follow the bitmap. *)
Theorem decode_all_null : forall m bm d columns,
  length bm = ((length columns + 9) / 8)%nat ->
  (forall c, 2 <= c < 2 + Z.of_nat (length columns) -> null_bit bm c = Some true) ->
  decode m (x00 :: bm ++ d) columns true =
  Ok (mkRow d (repeat None (length columns)) true).
Proof.
  intros m bm d columns Hl Hb. cbn [decode negb get_u8 bind].
  change (b2z x00 =? 0) with true. cbn [negb].
  rewrite (advance_bitmap bm d _ Hl). cbn [bind].
  rewrite decode_binary_loop_all_null; [reflexivity | lia |].
  intros c Hc. rewrite null_bit_app by (rewrite Hl; apply bitmap_byte_bound; lia).
  apply Hb. lia.
Qed.

Lemma decode_all_null_witness :
  decode Debug ([x00] ++ [x0c] ++ []) [OTHER 246; INT] true =
    Ok (mkRow [] [None; None] true).
Proof.
  apply (decode_all_null Debug [x0c] [] [OTHER 246; INT]); [reflexivity|].
  intros c Hc. simpl in Hc.
  assert (c = 2 \/ c = 3) as [-> | ->] by lia; reflexivity.
Defined.

(** An addition that passes the overflow check gives the same sum without it. *)
Lemma usize_add_debug_any : forall m a b c,
  usize_add Debug a b = Ok c -> usize_add m a b = Ok c.
Proof.
  intros m a b c H. unfold usize_add in *.
  destruct (_ <? _); [exact H | discriminate H].
Qed.

Ltac push_mode :=
  repeat match goal with
  | E : usize_add Debug ?a ?b = Ok _ |- context [usize_add ?m ?a ?b] =>
      rewrite (usize_add_debug_any m a b _ E); cbn [bind]
  | E : ?x = Ok _ |- context [bind ?x _] => rewrite E; cbn [bind]
  end.

Lemma get_lenenc_mode : forall m buf k,
  get_lenenc Debug buf = Ok k -> get_lenenc m buf = Ok k.
Proof.
  intros m buf k H. unfold get_lenenc in *.
  inv_bind. cbn [bind].
  repeat (destruct (_ =? _)); inv_bind; cbn [bind]; push_mode;
    first [exact H | reflexivity | apply usize_add_debug_any; exact H].
Qed.

Lemma field_size_mode : forall m t buffer index k,
  field_size Debug t buffer index = Ok k -> field_size m t buffer index = Ok k.
Proof.
  intros m t buffer index k H.
  destruct t; cbn [field_size] in *; try discriminate H; inv_bind; cbn [bind];
    push_mode; first [exact H | reflexivity | apply usize_add_debug_any; exact H | apply get_lenenc_mode; exact H].
Qed.

Lemma decode_text_loop_mode : forall m columns buf index values vs,
  decode_text_loop Debug columns buf index values = Ok vs ->
  decode_text_loop m columns buf index values = Ok vs.
Proof.
  induction columns as [|t columns IH]; intros buf index values vs H;
    cbn [decode_text_loop] in *; [exact H|].
  inv_bind. cbn [bind].
  rewrite (get_lenenc_mode m _ _ E0). cbn [bind]. push_mode.
  apply IH. exact H.
Qed.

Lemma decode_binary_loop_mode : forall m bm buffer columns cidx index values vs,
  decode_binary_loop Debug bm buffer columns cidx index values = Ok vs ->
  decode_binary_loop m bm buffer columns cidx index values = Ok vs.
Proof.
  induction columns as [|t columns IH]; intros cidx index values vs H;
    cbn [decode_binary_loop] in *; [exact H|].
  inv_bind. cbn [bind]. destruct (negb _); inv_bind.
  - apply IH. exact H.
  - rewrite (field_size_mode m _ _ _ _ E0). cbn [bind]. push_mode.
    apply IH. exact H.
Qed.

(** The overflow checks never change a successful result: a row that
    decodes with overflow checks enabled decodes to the same row in a
    wrapping (release) build. *)
Theorem decode_debug_release : forall buf columns binary r,
  decode Debug buf columns binary = Ok r -> decode Release buf columns binary = Ok r.
Proof.
  intros buf columns [|] r H; cbn [decode negb] in *.
  - inv_bind. cbn [bind]. destruct a as [header rest].
    destruct (negb (header =? 0)); [exact H|].
    inv_bind. cbn [bind].
    rewrite (decode_binary_loop_mode Release _ _ _ _ _ _ _ E1). exact H.
  - inv_bind. rewrite (decode_text_loop_mode Release _ _ _ _ _ E). exact H.
Qed.

Lemma decode_debug_release_witness :
  decode Debug test_row test_types true = Ok test_decoded /\
  decode Release test_row test_types true = Ok test_decoded.
Proof.
  assert (decode Debug test_row test_types true = Ok test_decoded) as H
    by (vm_compute; reflexivity).
  split; [exact H|]. exact (decode_debug_release _ _ _ _ H).
Defined.
